(** * Notes: create, delete and list (app/notes/actions.ts, app/notes/page.tsx)

    The note lifecycle of the application is three entry points that talk to
    a hosted relational store through its query client and to the web
    framework's path cache.  The entry points are embedded below as
    computations over an explicit [World]; the store and the path cache,
    which are collaborators outside the repository, are given an executable
    model so that the entry points can be run on concrete worlds. *)

From Stdlib Require Import Ascii.
From stdpp Require Import gmap strings list fin_maps pretty.

(** ** Data model *)

(** A row of relation [notes].  Text columns are nullable: the create action
    forwards whatever the form held, and a field missing from the form
    reaches the store as [null]. *)
Record Note := mkNote {
  id : string;
  title : option string;
  description : option string;
  created_at : Z
}.

Global Instance Note_eq_dec : EqDecision Note.
Proof. solve_decision. Defined.

(** The object literal handed to [insert] in [addNote]: it has a title, a
    description and a creation time, and no identifier. *)
Record NoteDraft := mkDraft {
  draft_title : option string;
  draft_description : option string;
  draft_created_at : Z
}.

(** What [NotesContent] renders for one note: the card's key, its two
    texts, and the note id wired into the delete button. *)
Record NoteCard := mkCard {
  key : string;
  card_title : option string;
  card_description : option string;
  noteId : string
}.

(** The rendered notes view: the grid of cards, whether the
    "No notes yet" paragraph is shown, and the creation form. *)
Record View := mkView {
  cards : list NoteCard;
  no_notes_yet : bool;
  add_note_form : bool
}.

(** What [Page] renders: the heading and, under it, the notes content. *)
Record Document := mkDocument {
  heading : string;
  content : View
}.

(** ** Failures and completions *)

(** The kinds of store failure the specification names, and the answer the
    store gives to a request against something it does not have. *)
Inductive Failure :=
| NetworkFailure
| ConstraintViolation
| AuthorizationFailure
| UnknownRelationOrColumn.

Global Instance Failure_eq_dec : EqDecision Failure.
Proof. solve_decision. Defined.

(** How an awaited promise settles. *)
Inductive Completion (A : Type) :=
| Resolved (a : A)
| Rejected (e : Failure).
Arguments Resolved {A} a.
Arguments Rejected {A} e.

(** How the store treats one request: it carries it out, it answers with an
    error result (the promise still resolves), or the awaited call throws. *)
Inductive Disposition :=
| Serve
| Refuse (e : Failure)
| Crash (e : Failure).

(** ** The world the actions run in *)

Record World := mkWorld {
  table : list Note;            (* relation notes, in the store's order *)
  next_id : nat;                (* the store's identifier generator *)
  upcoming : list Disposition;  (* how the store treats the coming requests *)
  cache : gmap string Document; (* the framework's cached pages, by path *)
  clock : Z                     (* what [new Date()] reads *)
}.

Definition set_table (f : list Note → list Note) (w : World) : World :=
  mkWorld (f (table w)) (next_id w) (upcoming w) (cache w) (clock w).
Definition set_next_id (f : nat → nat) (w : World) : World :=
  mkWorld (table w) (f (next_id w)) (upcoming w) (cache w) (clock w).
Definition set_upcoming (f : list Disposition → list Disposition) (w : World) : World :=
  mkWorld (table w) (next_id w) (f (upcoming w)) (cache w) (clock w).
Definition set_cache (f : gmap string Document → gmap string Document) (w : World) : World :=
  mkWorld (table w) (next_id w) (upcoming w) (f (cache w)) (clock w).

(** An [async] function body: it threads the world and stops at the first
    rejected await. *)
Definition Action (A : Type) : Type := World → Completion A * World.

Global Instance Action_ret : MRet Action := λ A a w, (Resolved a, w).
Global Instance Action_bind : MBind Action := λ A B k m w,
  match m w with
  | (Resolved a, w') => k a w'
  | (Rejected e, w') => (Rejected e, w')
  end.

(** ** Form data *)

(** The submitted form: named text fields, in submission order.  The form
    has only text inputs and [addNote] reads each field [as string]. *)
Definition FormData := list (string * string).

(** [formData.get(name)]: the first value under [name], [null] if none. *)
Fixpoint get (formData : FormData) (name : string) : option string :=
  match formData with
  | [] => None
  | (k, v) :: rest => if decide (k = name) then Some v else get rest name
  end.

(** JavaScript truthiness of a string-or-null: [null] and [""] are falsy. *)
Definition truthy (v : option string) : bool :=
  match v with
  | None => false
  | Some s => negb (bool_decide (s = ""))
  end.

(** ** The store's query client *)

(** Modelled from the spec: the hosted data store and its query client are
    collaborators outside the repository ([lib/supabase/server] is not among
    the sources).  The store holds relation [notes] with a store-generated
    identifier; it answers insert, delete-by-filter and select requests,
    one request per awaited query. *)
Module Postgrest.

Inductive SupabaseClient := supabase_client.

Inductive Verb :=
| Select
| Insert (values : NoteDraft)
| Delete.

(** A query under construction: the relation named by [from], the verb,
    and the equality filters added by [eq], in call order. *)
Record Query := mkQuery {
  relation : string;
  verb : Verb;
  filters : list (string * string)
}.

Definition from (_ : SupabaseClient) (rel : string) : string := rel.
Definition select (rel : string) : Query := mkQuery rel Select [].
Definition insert (rel : string) (values : NoteDraft) : Query :=
  mkQuery rel (Insert values) [].
Definition delete (rel : string) : Query := mkQuery rel Delete [].
Definition eq (q : Query) (column value : string) : Query :=
  mkQuery (relation q) (verb q) (filters q ++ [(column, value)]).

(** The resolved value of an awaited query. *)
Record Response := mkResponse {
  data : option (list Note);
  error : option Failure
}.

(** The text of a column of a row; [None] when the relation has no such
    text column. *)
Definition cell (column : string) (n : Note) : option (option string) :=
  if decide (column = "id") then Some (Some (id n))
  else if decide (column = "title") then Some (title n)
  else if decide (column = "description") then Some (description n)
  else None.

Definition known_column (column : string) : bool :=
  bool_decide (column ∈ ["id"; "title"; "description"]).

(** A row satisfies the filters when each named column holds the value. *)
Definition satisfies (fs : list (string * string)) (n : Note) : bool :=
  forallb (λ f, bool_decide (cell f.1 n = Some (Some f.2))) fs.

(** The identifier the store generates for its [k]-th row. *)
Definition generated_id (k : nat) : string := pretty k.

Definition stored (k : nat) (values : NoteDraft) : Note :=
  mkNote (generated_id k) (draft_title values) (draft_description values)
         (draft_created_at values).

Definition current (w : World) : Disposition :=
  match upcoming w with
  | [] => Serve
  | d :: _ => d
  end.

Definition refusal (e : Failure) : Response := mkResponse None (Some e).

(** Carrying out a request the store accepts. *)
Definition serve (q : Query) (w : World) : Response * World :=
  if negb (bool_decide (relation q = "notes"))
     || negb (forallb (λ f, known_column f.1) (filters q))
  then (refusal UnknownRelationOrColumn, w)
  else
    match verb q with
    | Select =>
        (mkResponse (Some (List.filter (satisfies (filters q)) (table w))) None, w)
    | Insert values =>
        (mkResponse None None,
         set_next_id S (set_table (λ t, t ++ [stored (next_id w) values]) w))
    | Delete =>
        (mkResponse None None,
         set_table (List.filter (λ n, negb (satisfies (filters q) n))) w)
    end.

(** [await query]: one request to the store. *)
Definition await (q : Query) : Action Response := λ w,
  let w' := set_upcoming (drop 1) w in
  match current w with
  | Crash e => (Rejected e, w')
  | Refuse e => (Resolved (refusal e), w')
  | Serve => let (r, w'') := serve q w' in (Resolved r, w'')
  end.

End Postgrest.

(** Modelled from the spec: [createClient] of [lib/supabase/server] is not
    among the sources; the specification treats it as the handle on the
    external data store. *)
Definition createClient : Action Postgrest.SupabaseClient :=
  mret Postgrest.supabase_client.

(** ** The framework *)

(** [new Date()]. *)
Definition new_Date : Action Z := λ w, (Resolved (clock w), w).

(** Modelled from the spec: cache invalidation marks the view rendered for
    a path stale, so that the next render of the path fetches again. *)
Definition revalidatePath (path : string) : Action unit := λ w,
  (Resolved tt, set_cache (base.delete path) w).

(** ** app/notes/actions.ts *)

Definition addNote (formData : FormData) : Action unit :=
  supabase ← createClient;
  let title := get formData "title" in
  let description := get formData "description" in
  createdAt ← new_Date;
  if negb (truthy title) then mret tt
  else
    _ ← Postgrest.await
          (Postgrest.insert (Postgrest.from supabase "notes")
             (mkDraft title description createdAt));
    revalidatePath "/notes".

Definition deleteNote (id : string) : Action unit :=
  supabase ← createClient;
  _ ← Postgrest.await
        (Postgrest.eq (Postgrest.delete (Postgrest.from supabase "notes")) "id" id);
  revalidatePath "/notes".

(** ** app/notes/page.tsx *)

Definition card_of (note : Note) : NoteCard :=
  mkCard (id note) (title note) (description note) (id note).

(** [NotesContent]: select every row, one card per row ([notes?.map]), and
    the "No notes yet" paragraph when [!notes || notes.length === 0]. *)
Definition NotesContent : Action View :=
  supabase ← createClient;
  response ← Postgrest.await (Postgrest.select (Postgrest.from supabase "notes"));
  let notes := Postgrest.data response in
  mret (mkView
          (match notes with None => [] | Some ns => card_of <$> ns end)
          (match notes with None => true | Some ns => bool_decide (length ns = 0) end)
          true).

(** [Page]: the heading "Notes" over the notes content. *)
Definition Page : Action Document :=
  notes_content ← NotesContent;
  mret (mkDocument "Notes" notes_content).

(** Modelled from the spec: the framework serving path [/notes].  A cached
    page is returned as it is; without one the page is rendered and the
    result kept. *)
Definition visit_notes : Action Document := λ w,
  match cache w !! "/notes" with
  | Some d => (Resolved d, w)
  | None =>
      match Page w with
      | (Resolved d, w') => (Resolved d, set_cache (base.insert "/notes" d) w')
      | (Rejected e, w') => (Rejected e, w')
      end
  end.

(** ** The application's note interface *)

(** The entry points the presentation layer can invoke: the two server
    actions and the notes page. *)
Inductive Request :=
| Create (formData : FormData)
| Remove (noteId : string)
| Listing.

Definition perform (r : Request) (w : World) : World :=
  match r with
  | Create formData => (addNote formData w).2
  | Remove i => (deleteNote i w).2
  | Listing => (visit_notes w).2
  end.

Definition run (rs : list Request) (w : World) : World :=
  foldl (λ w r, perform r w) w rs.

(** ** Store invariant *)

(** The identifiers the store has generated so far. *)
Definition issued (w : World) : list string :=
  Postgrest.generated_id <$> seq 0 (next_id w).

(** [id] is the key of relation [notes], and every identifier in the
    relation came out of the store's generator. *)
Definition well_formed (w : World) : Prop :=
  NoDup (id <$> table w) ∧ Forall (λ n, id n ∈ issued w) (table w).

Global Instance well_formed_dec w : Decision (well_formed w).
Proof. unfold well_formed. apply _. Defined.

(** ** Predicates used in the statements *)

(** The view a fresh render of a table gives. *)
Definition rendering (t : list Note) : View :=
  mkView (card_of <$> t) (bool_decide (length t = 0)) true.

(** The page a fresh render of a table gives. *)
Definition document (t : list Note) : Document := mkDocument "Notes" (rendering t).

(** Card [c] shows row [n]: it is keyed by the row's identifier, shows the
    row's title and description, and its delete button carries the row's
    identifier. *)
Definition shows (c : NoteCard) (n : Note) : Prop :=
  key c = id n
  ∧ card_title c = title n
  ∧ card_description c = description n
  ∧ noteId c = id n.

(** The store reports failure [e] on the coming request, by either means. *)
Definition reports (w : World) (e : Failure) : Prop :=
  Postgrest.current w = Refuse e ∨ Postgrest.current w = Crash e.

Definition is_whitespace (c : ascii) : bool :=
  bool_decide (c ∈ [" "; "009"; "010"; "011"; "012"; "013"]%char).

Fixpoint whitespace_only (s : string) : bool :=
  match s with
  | EmptyString => true
  | String c rest => is_whitespace c && whitespace_only rest
  end.

(** The worlds the entry points lead to. *)
Definition consumed (w : World) : World := set_upcoming (drop 1) w.

Definition invalidated (w : World) : World := set_cache (base.delete "/notes") w.

Definition inserted (n : Note) (w : World) : World :=
  set_next_id S (set_table (λ t, t ++ [n]) w).

(** The rows of a relation whose key is not [i]. *)
Definition without (i : string) (t : list Note) : list Note :=
  List.filter (λ n, negb (bool_decide (id n = i))) t.

Definition removed (i : string) (w : World) : World :=
  set_table (without i) w.

(** The row the store keeps for a draft inserted in world [w]. *)
Definition new_note (w : World) (title description : option string) : Note :=
  mkNote (Postgrest.generated_id (next_id w)) title description (clock w).

(** What one request can do to the relation: nothing, append one row
    under a newly generated identifier, or drop the rows of one key. *)
Definition step_shape (w w' : World) : Prop :=
  (table w' = table w ∧ next_id w' = next_id w)
  ∨ (∃ n, id n = Postgrest.generated_id (next_id w)
          ∧ table w' = table w ++ [n] ∧ next_id w' = S (next_id w))
  ∨ (∃ i, table w' = without i (table w) ∧ next_id w' = next_id w).

(** A listing of [w] is fresh: nothing is cached for the notes path, and
    when the store serves the request a visit shows the current rows. *)
Definition listing_is_fresh (w : World) : Prop :=
  cache w !! "/notes" = None
  ∧ (Postgrest.current w = Serve → (visit_notes w).1 = Resolved (document (table w))).

(** ** Sample worlds *)

Definition groceries : Note := mkNote "1" (Some "groceries") (Some "milk, eggs") 1700000000000.
Definition call_back : Note := mkNote "2" (Some "call back") None 1700000360000.

Definition sample (ds : list Disposition) : World :=
  mkWorld [groceries; call_back] 3 ds
          {["/notes" := document [groceries; call_back]]} 1700000720000.

Definition empty_store : World := mkWorld [] 1 [] ∅ 1700000720000.

Definition form_AB : FormData := [("title", "A"); ("description", "B")].
Definition form_blank : FormData := [("title", " "); ("description", "B")].
Definition form_empty_title : FormData := [("title", ""); ("description", "B")].


(** ** components/delete-note-button.tsx *)

(** The click handler of [DeleteNoteButton]. *)
Definition DeleteNoteButton_onClick (noteId : string) : Action unit :=
  _ ← deleteNote noteId;
  mret tt.

(** ** components/add-note-form.tsx *)

(** The form element behind [formRef]: its two named text inputs. *)
Record FormElement := mkFormElement {
  title_value : string;
  description_value : string
}.

(** [form.reset()]: neither input has a default value. *)
Definition reset (_ : FormElement) : FormElement := mkFormElement "" "".

(** What the form's action works on: the server-side world and
    [formRef.current], which is [null] while the form is not mounted. *)
Record Browser := mkBrowser {
  server : World;
  formRef_current : option FormElement
}.

(** The form's [action]: await [addNote], then [formRef.current?.reset()]. *)
Definition AddNoteForm_action (formData : FormData) (b : Browser)
  : Completion unit * Browser :=
  match addNote formData (server b) with
  | (Resolved _, w') => (Resolved tt, mkBrowser w' (reset <$> formRef_current b))
  | (Rejected e, w') => (Rejected e, mkBrowser w' (formRef_current b))
  end.

(** ** app/protected/profile/page.tsx *)

(** The string methods [getInitials] chains.  Strings are sequences of
    ASCII characters; [toUpperCase] is the method on that range. *)
Module JsString.

(** [s.split(sep)] for a one-character separator. *)
Fixpoint split (sep : ascii) (s : string) : list string :=
  match s with
  | EmptyString => [EmptyString]
  | String c rest =>
      if decide (c = sep) then EmptyString :: split sep rest
      else match split sep rest with
           | [] => [String c EmptyString]
           | piece :: pieces => String c piece :: pieces
           end
  end.

(** [n[0]]: the first character, [undefined] for the empty string. *)
Definition at0 (n : string) : option string :=
  match n with
  | EmptyString => None
  | String c _ => Some (String c EmptyString)
  end.

(** [xs.join(sep)]: an [undefined] element contributes the empty string. *)
Fixpoint join (sep : string) (xs : list (option string)) : string :=
  match xs with
  | [] => ""
  | x :: rest =>
      match rest with
      | [] => default "" x
      | _ :: _ => default "" x +:+ sep +:+ join sep rest
      end
  end.

Definition upper (c : ascii) : ascii :=
  let n := nat_of_ascii c in
  if (97 <=? n) && (n <=? 122) then ascii_of_nat (n - 32) else c.

Fixpoint toUpperCase (s : string) : string :=
  match s with
  | EmptyString => EmptyString
  | String c rest => String (upper c) (toUpperCase rest)
  end.

(** [s.substring(0, stop)]. *)
Definition substring0 (stop : nat) (s : string) : string :=
  String.substring 0 stop s.

End JsString.

Module Profile.

Record UserMetadata := mkUserMetadata {
  full_name : option string;
  user_name : option string;
  avatar_url : option string;
  preferred_username : option string
}.

Record AppMetadata := mkAppMetadata {
  providers : option (list string)
}.

Record User := mkUser {
  id : string;
  email : option string;
  user_metadata : option UserMetadata;
  app_metadata : option AppMetadata
}.

(** What [supabase.auth.getUser()] resolves to: [data.user] and [error]. *)
Record UserResponse := mkUserResponse {
  user : option User;
  error : option Failure
}.

(** The two cards [ProfileContent] renders. *)
Record ProfileView := mkProfileView {
  avatar_src : string;
  avatar_alt : string;
  avatar_fallback : string;
  profile_title : string;
  profile_description : string;
  badges : list string;
  email_input : string;
  name_input : string;
  username_input : option string;
  uid_input : string
}.

(** A server component either renders or leaves through [redirect]. *)
Inductive Outcome :=
| Render (view : ProfileView)
| Redirect (path : string).

(** [v || d] for a string-or-undefined [v] and a string [d]. *)
Definition or_else (v : option string) (d : string) : string :=
  if truthy v then default d v else d.

Definition getInitials (name : string) : string :=
  JsString.substring0 2
    (JsString.toUpperCase
       (JsString.join "" (JsString.at0 <$> JsString.split " " name))).

(** [ProfileContent], as a function of what [getUser] resolved to. *)
Definition ProfileContent (response : UserResponse) : Outcome :=
  match error response, user response with
  | None, Some user =>
      let name :=
        or_else (user_metadata user ≫= full_name)
          (or_else (user_metadata user ≫= user_name) "User") in
      let email := or_else (email user) "" in
      let avatarUrl := or_else (user_metadata user ≫= avatar_url) "" in
      let providers := default [] (app_metadata user ≫= providers) in
      let preferredUsername :=
        or_else (user_metadata user ≫= preferred_username) "" in
      Render
        (mkProfileView avatarUrl name (getInitials name) name
           (if truthy (Some preferredUsername)
            then "@" +:+ preferredUsername else email)
           providers email name
           (if truthy (Some preferredUsername)
            then Some preferredUsername else None)
           (id user))
  | _, _ => Redirect "/auth/login"
  end.

End Profile.

(** ** Predicates used in the further statements *)

(** The non-empty pieces between the spaces of a name. *)
Definition words (name : string) : list string :=
  List.filter (λ piece, negb (bool_decide (piece = ""))) (JsString.split " " name).

Fixpoint ascii_only (s : string) : bool :=
  match s with
  | EmptyString => true
  | String c rest => (nat_of_ascii c <? 128) && ascii_only rest
  end.

Fixpoint only_spaces (s : string) : bool :=
  match s with
  | EmptyString => true
  | String c rest => bool_decide (c = " "%char) && only_spaces rest
  end.

Definition is_lower (c : ascii) : bool :=
  (97 <=? nat_of_ascii c) && (nat_of_ascii c <=? 122).

Fixpoint chars (s : string) : list ascii :=
  match s with
  | EmptyString => []
  | String c rest => c :: chars rest
  end.

(** ** Further sample data *)

Definition ada : Profile.User :=
  Profile.mkUser "6f1c" (Some "ada@example.org")
    (Some (Profile.mkUserMetadata (Some "ada  lovelace king") (Some "ada")
             None (Some "countess")))
    (Some (Profile.mkAppMetadata (Some ["github"; "email"]))).

Definition bare_user : Profile.User := Profile.mkUser "9e0d" None None None.

(** * Equations of the entry points *)

Section equations.
Context (w : World).

Lemma addNote_eq (formData : FormData) :
  addNote formData w =
  if truthy (get formData "title") then
    match Postgrest.current w with
    | Serve =>
        (Resolved tt,
         invalidated
           (inserted
              (new_note w (get formData "title") (get formData "description"))
              (consumed w)))
    | Refuse e => (Resolved tt, invalidated (consumed w))
    | Crash e => (Rejected e, consumed w)
    end
  else (Resolved tt, w).
Proof.
  unfold addNote, mbind, Action_bind, createClient, mret, Action_ret, new_Date.
  destruct (truthy (get formData "title")); simpl; [|done].
  unfold Postgrest.await.
  by destruct (Postgrest.current w).
Qed.

Lemma satisfies_id (i : string) (n : Note) :
  Postgrest.satisfies [("id", i)] n = bool_decide (id n = i).
Proof.
  unfold Postgrest.satisfies, Postgrest.cell; simpl.
  rewrite andb_true_r. apply bool_decide_ext. naive_solver.
Qed.

Lemma deleteNote_eq (i : string) :
  deleteNote i w =
  match Postgrest.current w with
  | Serve => (Resolved tt, invalidated (removed i (consumed w)))
  | Refuse e => (Resolved tt, invalidated (consumed w))
  | Crash e => (Rejected e, consumed w)
  end.
Proof.
  unfold deleteNote, mbind, Action_bind, createClient, mret, Action_ret.
  unfold Postgrest.await.
  destruct (Postgrest.current w); [|done|done].
  unfold Postgrest.serve, removed, revalidatePath, invalidated; simpl.
  do 2 f_equal. unfold consumed, set_table; simpl. f_equal.
  apply List.filter_ext; intros n.
  by rewrite <-(satisfies_id i n).
Qed.

Lemma NotesContent_eq :
  NotesContent w =
  match Postgrest.current w with
  | Serve => (Resolved (rendering (table w)), consumed w)
  | Refuse e => (Resolved (mkView [] true true), consumed w)
  | Crash e => (Rejected e, consumed w)
  end.
Proof.
  unfold NotesContent, mbind, Action_bind, createClient, mret, Action_ret.
  unfold Postgrest.await.
  destruct (Postgrest.current w); [|done|done].
  unfold Postgrest.serve, rendering; simpl.
  replace (List.filter _ (table w)) with (table w); [done|].
  induction (table w) as [|n t IH]; [done|]; simpl. by f_equal.
Qed.

End equations.

Lemma Page_eq (w : World) :
  Page w =
  match Postgrest.current w with
  | Serve => (Resolved (document (table w)), consumed w)
  | Refuse e => (Resolved (mkDocument "Notes" (mkView [] true true)), consumed w)
  | Crash e => (Rejected e, consumed w)
  end.
Proof.
  unfold Page, mbind, Action_bind. rewrite NotesContent_eq.
  by destruct (Postgrest.current w).
Qed.

Lemma visit_notes_eq (w : World) :
  visit_notes w =
  match cache w !! "/notes" with
  | Some d => (Resolved d, w)
  | None =>
      match Postgrest.current w with
      | Serve =>
          (Resolved (document (table w)),
           set_cache (base.insert "/notes" (document (table w))) (consumed w))
      | Refuse e =>
          (Resolved (mkDocument "Notes" (mkView [] true true)),
           set_cache (base.insert "/notes" (mkDocument "Notes" (mkView [] true true)))
             (consumed w))
      | Crash e => (Rejected e, consumed w)
      end
  end.
Proof.
  unfold visit_notes. destruct (cache w !! "/notes"); [done|].
  rewrite Page_eq. by destruct (Postgrest.current w).
Qed.

(** * The identifier generator *)

Lemma pretty_N_go_length (x : N) (s : string) :
  String.length s ≤ String.length (pretty_N_go x s).
Proof.
  revert s. induction (N.lt_wf_0 x) as [x _ IH]; intros s.
  destruct (decide (x = 0)%N) as [->|Hx]; [by rewrite pretty_N_go_0|].
  rewrite pretty_N_go_step by lia.
  etrans; [|apply IH, N.div_lt; lia]. simpl. lia.
Qed.

Lemma generated_id_nonempty (k : nat) : Postgrest.generated_id k ≠ "".
Proof.
  unfold Postgrest.generated_id, pretty, pretty_nat, pretty, pretty_N.
  case_decide as Hk; [done|].
  rewrite pretty_N_go_step by lia. intros Heq.
  pose proof (pretty_N_go_length (N.of_nat k `div` 10)
    (String (pretty_N_char (N.of_nat k `mod` 10)) "")) as Hlen.
  rewrite Heq in Hlen. simpl in Hlen. lia.
Qed.

Lemma generated_id_inj (j k : nat) :
  Postgrest.generated_id j = Postgrest.generated_id k → j = k.
Proof. apply pretty_nat_inj. Qed.

Lemma issued_spec (w : World) (s : string) :
  s ∈ issued w ↔ ∃ k, k < next_id w ∧ s = Postgrest.generated_id k.
Proof.
  unfold issued. rewrite list_elem_of_fmap. setoid_rewrite elem_of_seq.
  split; intros (k & ? & ?); exists k; (split; [done || lia|done || lia]).
Qed.

Lemma generated_id_fresh (w : World) (k : nat) :
  next_id w ≤ k → Postgrest.generated_id k ∉ issued w.
Proof.
  intros Hk (j & Hj & Heq)%issued_spec.
  apply generated_id_inj in Heq. lia.
Qed.

(** * Rows and keys *)

Section rows.
Implicit Types (t : list Note) (n : Note) (i : string).

Lemma elem_of_without i t n : n ∈ without i t ↔ n ∈ t ∧ id n ≠ i.
Proof.
  unfold without. rewrite !list_elem_of_In, List.filter_In, negb_true_iff.
  by rewrite bool_decide_eq_false.
Qed.

Lemma without_absent i t : i ∉ (id <$> t) → without i t = t.
Proof.
  induction t as [|n t IH]; [done|]; simpl.
  rewrite not_elem_of_cons. intros [Hne Hnot].
  rewrite bool_decide_false by done. simpl. by rewrite IH.
Qed.

Lemma without_split i t :
  NoDup (id <$> t) → i ∈ (id <$> t) →
  ∃ before n after,
    t = before ++ n :: after ∧ id n = i ∧
    without i t = before ++ after ∧ i ∉ (id <$> (before ++ after)).
Proof.
  induction t as [|m t IH]; simpl.
  { by intros _ ?%elem_of_nil. }
  intros [Hm Hnd]%NoDup_cons Hin.
  destruct (decide (id m = i)) as [Heq|Hne].
  - exists [], m, t. rewrite bool_decide_true by done. simpl.
    subst i. by rewrite without_absent.
  - apply elem_of_cons in Hin as [?|Hin]; [congruence|].
    destruct (IH Hnd Hin) as (before & n & after & -> & Hid & Hw & Hnot).
    exists (m :: before), n, after.
    rewrite bool_decide_false by done. simpl.
    fold (without i (before ++ n :: after)). rewrite Hw.
    split_and!; [done..|]. rewrite not_elem_of_cons. by split.
Qed.

Lemma key_determines_row t n n' :
  NoDup (id <$> t) → n ∈ t → n' ∈ t → id n' = id n → n' = n.
Proof.
  induction t as [|m t IH]; simpl.
  { by intros _ ?%elem_of_nil. }
  intros [Hm Hnd]%NoDup_cons [->|Hn]%elem_of_cons [->|Hn']%elem_of_cons Hid;
    [done|..|by apply IH].
  - destruct Hm. rewrite <-Hid. by apply list_elem_of_fmap_2.
  - destruct Hm. rewrite Hid. by apply list_elem_of_fmap_2.
Qed.

Lemma NoDup_keys_without i t : NoDup (id <$> t) → NoDup (id <$> without i t).
Proof.
  induction t as [|m t IH]; [done|]; simpl.
  intros [Hm Hnd]%NoDup_cons.
  destruct (bool_decide (id m = i)); simpl; [by apply IH|].
  apply NoDup_cons. split; [|by apply IH].
  intros (n & Hid & [Hn _]%elem_of_without)%list_elem_of_fmap.
  apply Hm. rewrite Hid. by apply list_elem_of_fmap_2.
Qed.

End rows.

(** * The store invariant is kept by every entry point *)

Lemma well_formed_frame (w w' : World) :
  table w' = table w → next_id w' = next_id w →
  well_formed w → well_formed w'.
Proof. unfold well_formed, issued. by intros -> ->. Qed.

Lemma issued_mono (w w' : World) (s : string) :
  next_id w ≤ next_id w' → s ∈ issued w → s ∈ issued w'.
Proof.
  rewrite !issued_spec. intros Hle (k & Hk & ->). exists k. split; [lia|done].
Qed.

Lemma well_formed_inserted (n : Note) (w : World) :
  id n = Postgrest.generated_id (next_id w) →
  well_formed w → well_formed (inserted n w).
Proof.
  intros Hid [Hnd Hall]. split; simpl.
  - rewrite fmap_app. apply NoDup_app. split_and!; [done| |apply NoDup_singleton].
    intros s (m & Hs & Hm)%list_elem_of_fmap Hs'%list_elem_of_singleton.
    rewrite Forall_forall in Hall. apply Hall in Hm.
    rewrite <-Hs, Hs', Hid in Hm. by apply generated_id_fresh in Hm.
  - apply Forall_app. split.
    + eapply Forall_impl; [exact Hall|]. intros m. apply issued_mono; simpl; lia.
    + apply Forall_singleton, issued_spec. exists (next_id w). simpl. split; [lia|done].
Qed.

Lemma well_formed_removed (i : string) (w : World) :
  well_formed w → well_formed (removed i w).
Proof.
  intros [Hnd Hall]. split; simpl.
  - by apply NoDup_keys_without.
  - apply Forall_forall. intros n [Hn _]%elem_of_without.
    rewrite Forall_forall in Hall. by apply Hall.
Qed.

Lemma perform_shape (r : Request) (w : World) : step_shape w (perform r w).
Proof.
  unfold step_shape. destruct r as [formData|i|]; simpl.
  - rewrite addNote_eq.
    destruct (truthy _); [|by left].
    destruct (Postgrest.current w); [|by left..].
    right; left.
    by exists (new_note w (get formData "title") (get formData "description")).
  - rewrite deleteNote_eq.
    destruct (Postgrest.current w); [|by left..].
    right; right. by exists i.
  - rewrite visit_notes_eq. destruct (cache w !! "/notes"); [by left|].
    destruct (Postgrest.current w); by left.
Qed.

Lemma step_shape_well_formed (w w' : World) :
  step_shape w w' → well_formed w → well_formed w'.
Proof.
  intros [[Ht Hk]|[(n & Hid & Ht & Hk)|(i & Ht & Hk)]] Hwf.
  - by apply (well_formed_frame w).
  - by apply (well_formed_frame (inserted n w)), well_formed_inserted.
  - by apply (well_formed_frame (removed i w)), well_formed_removed.
Qed.

(** A row found after a request was there before, unchanged, or carries an
    identifier the store had not generated before. *)
Lemma step_shape_rows (w w' : World) (n' : Note) :
  step_shape w w' → n' ∈ table w' →
  n' ∈ table w ∨ id n' ∉ issued w.
Proof.
  intros [[Ht Hk]|[(n & Hid & Ht & Hk)|(i & Ht & Hk)]]; rewrite Ht.
  - by left.
  - intros [?|Hn%list_elem_of_singleton]%elem_of_app; [by left|right].
    rewrite Hn, Hid. by apply generated_id_fresh.
  - intros [? _]%elem_of_without. by left.
Qed.

Lemma step_shape_issued (w w' : World) (s : string) :
  step_shape w w' → s ∈ issued w → s ∈ issued w'.
Proof.
  intros [[Ht Hk]|[(n & Hid & Ht & Hk)|(i & Ht & Hk)]];
    apply issued_mono; lia.
Qed.

Lemma run_snoc (rs : list Request) (r : Request) (w : World) :
  run (rs ++ [r]) w = perform r (run rs w).
Proof. unfold run. by rewrite foldl_app. Qed.

Lemma run_invariant (rs : list Request) (w : World) :
  well_formed w →
  well_formed (run rs w)
  ∧ (∀ s, s ∈ issued w → s ∈ issued (run rs w))
  ∧ (∀ n', n' ∈ table (run rs w) → n' ∈ table w ∨ id n' ∉ issued w).
Proof.
  intros Hwf. induction rs as [|r rs IH] using rev_ind.
  { split_and!; [done|done|by left]. }
  destruct IH as (Hwf' & Hiss & Hrows). rewrite run_snoc.
  pose proof (perform_shape r (run rs w)) as Hshape.
  split_and!.
  - by eapply step_shape_well_formed.
  - intros s Hs. by eapply step_shape_issued, Hiss.
  - intros n' Hn'.
    destruct (step_shape_rows _ _ _ Hshape Hn') as [Hold|Hnew]; [by apply Hrows|].
    right. intros Hs. by apply Hnew, Hiss.
Qed.


(** A cached page is what a visit gets, whatever the store holds: this is
    the staleness that invalidation removes. *)
Lemma visit_notes_cached (w : World) (d : Document) :
  cache w !! "/notes" = Some d → visit_notes w = (Resolved d, w).
Proof. intros Hd. by rewrite visit_notes_eq, Hd. Qed.

Lemma invalidated_is_fresh (w : World) : listing_is_fresh (invalidated w).
Proof.
  split.
  - apply lookup_delete_eq.
  - intros Hserve. rewrite visit_notes_eq.
    replace (cache (invalidated w) !! "/notes") with (@None Document)
      by (symmetry; apply lookup_delete_eq).
    by rewrite Hserve.
Qed.

Lemma truthy_Some (T : string) : T ≠ "" → truthy (Some T) = true.
Proof. intros HT. unfold truthy. by rewrite bool_decide_false. Qed.

(** * The note lifecycle *)

(** What the page shows follows the rows: one card per row, in order, each
    showing its row. *)
Lemma rendering_shows_rows (t : list Note) : Forall2 shows (cards (rendering t)) t.
Proof. simpl. induction t as [|n t IH]; constructor; [by repeat split|done]. Qed.

Lemma shows_determines_card (c : NoteCard) (n : Note) :
  shows c n → c = mkCard (id n) (title n) (description n) (id n).
Proof. destruct c. unfold shows. simpl. by intros (-> & -> & -> & ->). Qed.

Lemma shows_determines_cards (cs : list NoteCard) (t : list Note) :
  Forall2 shows cs t →
  cs = (λ n, mkCard (id n) (title n) (description n) (id n)) <$> t.
Proof.
  induction 1 as [|c n cs t Hc _ IH]; [done|].
  by rewrite fmap_cons, <-IH, <-(shows_determines_card c n).
Qed.

(** C1. A creation request with a non-empty title [T] and a description [D]
    that the store serves appends exactly one row to relation [notes]: its
    title is [T], its description is [D], its [created_at] is the time the
    action read when it was called, and its identifier is the one the store
    generates, which is non-empty and, in a well-formed store, carried by no
    other row.  The next listing the store serves shows the rows of before,
    each under its own identifier and texts, followed by exactly one more
    card: keyed by the generated identifier, with title [T] and description
    [D], and with that identifier on its delete button. *)
Theorem addNote_appends_one_record
    (formData : FormData) (w : World) (T D : string) :
  get formData "title" = Some T → T ≠ "" →
  get formData "description" = Some D →
  Postgrest.current w = Serve →
  ∃ w',
    addNote formData w = (Resolved tt, w')
    ∧ table w' = table w ++ [new_note w (Some T) (Some D)]
    ∧ title (new_note w (Some T) (Some D)) = Some T
    ∧ description (new_note w (Some T) (Some D)) = Some D
    ∧ created_at (new_note w (Some T) (Some D)) = clock w
    ∧ id (new_note w (Some T) (Some D)) = Postgrest.generated_id (next_id w)
    ∧ id (new_note w (Some T) (Some D)) ≠ ""
    ∧ (well_formed w → id (new_note w (Some T) (Some D)) ∉ id <$> table w)
    ∧ (Postgrest.current w' = Serve →
       ∃ d shown_before,
         (visit_notes w').1 = Resolved d
         ∧ cards (content d)
           = shown_before
             ++ [mkCard (Postgrest.generated_id (next_id w)) (Some T) (Some D)
                   (Postgrest.generated_id (next_id w))]
         ∧ Forall2 shows shown_before (table w)
         ∧ Postgrest.generated_id (next_id w) ≠ ""
         ∧ length (cards (content d)) = S (length (table w))
         ∧ no_notes_yet (content d) = false
         ∧ cards (content d)
           = (card_of <$> table w) ++ [card_of (new_note w (Some T) (Some D))]).
Proof.
  intros HT Hne HD Hserve.
  eexists. rewrite addNote_eq, HT, HD, truthy_Some, Hserve by done.
  split; [reflexivity|]. split_and!; try done.
  - apply generated_id_nonempty.
  - intros [_ Hall] (m & Hid & Hm)%list_elem_of_fmap.
    rewrite Forall_forall in Hall. apply Hall in Hm.
    rewrite <-Hid in Hm. simpl in Hm.
    by apply generated_id_fresh in Hm.
  - intros Hserve'.
    destruct (invalidated_is_fresh
      (inserted (new_note w (Some T) (Some D)) (consumed w))) as [_ Hpage].
    exists (document (table w ++ [new_note w (Some T) (Some D)])),
           (cards (rendering (table w))).
    split; [by apply Hpage|].
    split_and!.
    + simpl. by rewrite fmap_app.
    + apply rendering_shows_rows.
    + apply generated_id_nonempty.
    + simpl. rewrite length_fmap, length_app. simpl. lia.
    + simpl. apply bool_decide_eq_false. rewrite length_app. simpl. lia.
    + simpl. by rewrite fmap_app.
Qed.

Lemma addNote_appends_one_record_witness :
  (get form_AB "title" = Some "A" ∧ "A" ≠ ""
   ∧ get form_AB "description" = Some "B"
   ∧ Postgrest.current (sample []) = Serve
   ∧ table (sample []) = [groceries; call_back])
  ∧ ∃ w',
      addNote form_AB (sample []) = (Resolved tt, w')
      ∧ table w' = [groceries; call_back; mkNote "3" (Some "A") (Some "B") 1700000720000]
      ∧ ∃ d,
          (visit_notes w').1 = Resolved d
          ∧ cards (content d)
            = [mkCard "1" (Some "groceries") (Some "milk, eggs") "1";
               mkCard "2" (Some "call back") None "2";
               mkCard "3" (Some "A") (Some "B") "3"]
          ∧ no_notes_yet (content d) = false.
Proof.
  split; [by split_and!|].
  destruct (addNote_appends_one_record form_AB (sample []) "A" "B")
    as (w' & Hadd & Htable & _ & _ & _ & _ & _ & _ & Hlisting); [done..|].
  exists w'. split; [done|]. split; [by rewrite Htable|].
  assert (Postgrest.current w' = Serve) as Hserve'.
  { rewrite addNote_eq in Hadd. by injection Hadd as <-. }
  destruct (Hlisting Hserve')
    as (d & shown_before & Hvisit & Hcards & Hbefore & _ & _ & Hnone & _).
  exists d. split; [done|]. split; [|done].
  by rewrite Hcards, (shows_determines_cards _ _ Hbefore).
Defined.

(** C2. A creation request whose title is absent or empty returns normally
    and leaves the whole world as it was: no row is inserted, nothing is
    invalidated, and no request reaches the store. *)
Theorem addNote_without_title_is_silent (formData : FormData) (w : World) :
  get formData "title" = None ∨ get formData "title" = Some "" →
  addNote formData w = (Resolved tt, w).
Proof. intros [HT|HT]; by rewrite addNote_eq, HT. Qed.

Lemma addNote_without_title_is_silent_witness :
  (get form_empty_title "title" = None ∨ get form_empty_title "title" = Some "")
  ∧ addNote form_empty_title (sample [Crash NetworkFailure])
    = (Resolved tt, sample [Crash NetworkFailure]).
Proof.
  split; [by right|].
  apply (addNote_without_title_is_silent form_empty_title
           (sample [Crash NetworkFailure])).
  by right.
Defined.

(** C3, as the actions have it.  When the awaited store request throws,
    neither action catches or translates the failure: a creation request
    with a non-empty title and every deletion request reject with that same
    failure, and the notes path is not invalidated.  Nothing is said here of
    a failure the store reports as an error result. *)
Theorem thrown_store_failure_propagates (w : World) (e : Failure) :
  Postgrest.current w = Crash e →
  (∀ formData, truthy (get formData "title") = true →
     addNote formData w = (Rejected e, consumed w))
  ∧ (∀ i, deleteNote i w = (Rejected e, consumed w))
  ∧ table (consumed w) = table w
  ∧ cache (consumed w) = cache w.
Proof.
  intros Hcrash. split_and!; [|by intros; rewrite deleteNote_eq, Hcrash|done..].
  intros formData HT. by rewrite addNote_eq, HT, Hcrash.
Qed.

Lemma thrown_store_failure_propagates_witness :
  Postgrest.current (sample [Crash NetworkFailure]) = Crash NetworkFailure
  ∧ addNote form_AB (sample [Crash NetworkFailure])
    = (Rejected NetworkFailure, consumed (sample [Crash NetworkFailure]))
  ∧ deleteNote "1" (sample [Crash NetworkFailure])
    = (Rejected NetworkFailure, consumed (sample [Crash NetworkFailure])).
Proof.
  split; [done|].
  destruct (thrown_store_failure_propagates
              (sample [Crash NetworkFailure]) NetworkFailure eq_refl)
    as (Hadd & Hdel & _).
  split; [by apply Hadd|apply Hdel].
Defined.

(** C3, as stated, fails: the store reports a constraint violation on the
    coming request, and both actions return normally instead of rejecting
    with it. *)
Lemma store_error_result_does_not_propagate :
  reports (sample [Refuse ConstraintViolation]) ConstraintViolation
  ∧ get form_AB "title" = Some "A"
  ∧ (addNote form_AB (sample [Refuse ConstraintViolation])).1 = Resolved tt
  ∧ (addNote form_AB (sample [Refuse ConstraintViolation])).1
    ≠ Rejected ConstraintViolation
  ∧ (deleteNote "1" (sample [Refuse ConstraintViolation])).1 = Resolved tt
  ∧ (deleteNote "1" (sample [Refuse ConstraintViolation])).1
    ≠ Rejected ConstraintViolation.
Proof.
  split; [by left|]. split; [done|].
  rewrite addNote_eq, deleteNote_eq. by simpl.
Qed.

(** C4. In a store whose rows have distinct identifiers, deleting an
    identifier [i] that is present, when the store serves the request,
    removes the one row whose [id] is [i]; the rows before it and after it
    stay as they were, in the same order. *)
Theorem deleteNote_removes_exactly_that_record (w : World) (i : string) :
  NoDup (id <$> table w) → i ∈ (id <$> table w) →
  Postgrest.current w = Serve →
  ∃ before n after w',
    table w = before ++ n :: after
    ∧ id n = i
    ∧ deleteNote i w = (Resolved tt, w')
    ∧ table w' = before ++ after
    ∧ (i ∉ id <$> table w')
    ∧ next_id w' = next_id w.
Proof.
  intros Hnd Hin Hserve.
  destruct (without_split i (table w) Hnd Hin)
    as (before & n & after & Ht & Hid & Hw & Hnot).
  exists before, n, after. eexists.
  rewrite deleteNote_eq, Hserve. split_and!; [done..|reflexivity| | |done]; simpl.
  - done.
  - by rewrite Hw.
Qed.

Lemma deleteNote_removes_exactly_that_record_witness :
  (NoDup (id <$> table (sample [])) ∧ "1" ∈ (id <$> table (sample []))
   ∧ Postgrest.current (sample []) = Serve)
  ∧ ∃ before n after w',
      table (sample []) = before ++ n :: after
      ∧ id n = "1"
      ∧ deleteNote "1" (sample []) = (Resolved tt, w')
      ∧ table w' = before ++ after
      ∧ ("1" ∉ id <$> table w')
      ∧ next_id w' = next_id (sample []).
Proof.
  assert (NoDup (id <$> table (sample []))) as Hnd by (apply (bool_decide_unpack _); by vm_compute).
  assert ("1" ∈ (id <$> table (sample []))) as Hin by (apply (bool_decide_unpack _); by vm_compute).
  split; [done|].
  by apply (deleteNote_removes_exactly_that_record (sample []) "1").
Defined.

(** C5. Deleting an identifier that no row carries leaves relation [notes]
    as it was, whatever the store does with the request; and when the store
    serves the request the action returns normally. *)
Theorem deleteNote_absent_id_changes_nothing (w : World) (i : string) :
  i ∉ (id <$> table w) →
  table (deleteNote i w).2 = table w
  ∧ (Postgrest.current w = Serve →
     deleteNote i w = (Resolved tt, invalidated (consumed w)))
  ∧ (∀ e, (deleteNote i w).1 = Rejected e → Postgrest.current w = Crash e).
Proof.
  intros Hnot. rewrite deleteNote_eq.
  assert (removed i (consumed w) = consumed w) as Hsame.
  { unfold removed, set_table; simpl. by rewrite without_absent. }
  split_and!.
  - destruct (Postgrest.current w); simpl; [by rewrite without_absent|done..].
  - intros ->. by rewrite Hsame.
  - intros e. destruct (Postgrest.current w); simpl; [done..|congruence].
Qed.

Lemma deleteNote_absent_id_changes_nothing_witness :
  ("7" ∉ id <$> table (sample []))
  ∧ table (deleteNote "7" (sample [])).2 = table (sample [])
  ∧ (Postgrest.current (sample []) = Serve →
     deleteNote "7" (sample []) = (Resolved tt, invalidated (consumed (sample []))))
  ∧ (∀ e, (deleteNote "7" (sample [])).1 = Rejected e →
          Postgrest.current (sample []) = Crash e).
Proof.
  assert ("7" ∉ (id <$> table (sample []))) as Hnot by (apply (bool_decide_unpack _); by vm_compute).
  split; [done|].
  by apply (deleteNote_absent_id_changes_nothing (sample []) "7").
Defined.

(** C6. When a creation request with a non-empty title completes, and when
    a deletion request completes, nothing is cached for the notes path in
    the world it leaves, so that the next listing the store serves shows the
    rows the store holds then, not a view rendered earlier. *)
Theorem completed_mutation_invalidates_cache (w w' : World) :
  (∀ formData, truthy (get formData "title") = true →
     addNote formData w = (Resolved tt, w') → listing_is_fresh w')
  ∧ (∀ i, deleteNote i w = (Resolved tt, w') → listing_is_fresh w').
Proof.
  split.
  - intros formData HT. rewrite addNote_eq, HT.
    destruct (Postgrest.current w); intros [= <-] || intros [=];
      apply invalidated_is_fresh.
  - intros i. rewrite deleteNote_eq.
    destruct (Postgrest.current w); intros [= <-] || intros [=];
      apply invalidated_is_fresh.
Qed.

Lemma completed_mutation_invalidates_cache_witness :
  (truthy (get form_AB "title") = true
   ∧ cache (sample []) !! "/notes" = Some (document [groceries; call_back])
   ∧ (addNote form_AB (sample [])).1 = Resolved tt
   ∧ (deleteNote "1" (sample [])).1 = Resolved tt)
  ∧ listing_is_fresh (addNote form_AB (sample [])).2
  ∧ listing_is_fresh (deleteNote "1" (sample [])).2
  ∧ (visit_notes (deleteNote "1" (sample [])).2).1 = Resolved (document [call_back]).
Proof.
  split; [by split_and!; vm_compute|].
  destruct (completed_mutation_invalidates_cache
              (sample []) (addNote form_AB (sample [])).2) as [Hadd _].
  destruct (completed_mutation_invalidates_cache
              (sample []) (deleteNote "1" (sample [])).2) as [_ Hdel].
  specialize (Hadd form_AB eq_refl). specialize (Hdel "1").
  rewrite addNote_eq in Hadd. rewrite deleteNote_eq in Hdel.
  split_and!; [by apply Hadd|by apply Hdel|by apply Hdel].
Defined.

(** C7. [NotesContent] takes no argument.  When the store serves its select
    it returns one card per row of relation [notes], every row, in the
    store's order, each card keyed by its row's identifier and showing its
    row's title and description; the "No notes yet" paragraph is shown
    exactly when there is no row, and with no rows the result is the empty
    grid with that paragraph, returned and not rejected. *)
Theorem NotesContent_lists_every_note (w : World) :
  Postgrest.current w = Serve →
  ∃ v, NotesContent w = (Resolved v, consumed w)
       ∧ Forall2 shows (cards v) (table w)
       ∧ cards v = card_of <$> table w
       ∧ length (cards v) = length (table w)
       ∧ (∀ n, n ∈ table w → card_of n ∈ cards v)
       ∧ (no_notes_yet v = true ↔ table w = [])
       ∧ add_note_form v = true
       ∧ (table w = [] → v = mkView [] true true).
Proof.
  intros Hserve. exists (rendering (table w)).
  rewrite NotesContent_eq, Hserve.
  split_and!; [done|apply rendering_shows_rows|done| | | |done|]; simpl.
  - by rewrite length_fmap.
  - intros n Hn. by apply list_elem_of_fmap_2.
  - rewrite bool_decide_eq_true. by destruct (table w).
  - by intros ->.
Qed.

Lemma NotesContent_lists_every_note_witness :
  (Postgrest.current (sample []) = Serve
   ∧ table (sample []) = [groceries; call_back]
   ∧ Postgrest.current empty_store = Serve
   ∧ table empty_store = [])
  ∧ (∃ v, NotesContent (sample []) = (Resolved v, consumed (sample []))
          ∧ cards v
            = [mkCard "1" (Some "groceries") (Some "milk, eggs") "1";
               mkCard "2" (Some "call back") None "2"]
          ∧ no_notes_yet v = false)
  ∧ NotesContent empty_store = (Resolved (mkView [] true true), consumed empty_store).
Proof.
  split; [by split_and!|]. split.
  - destruct (NotesContent_lists_every_note (sample []) eq_refl)
      as (v & Hlist & Hshows & _ & _ & _ & Hnone & _).
    exists v. split; [done|]. split.
    + by rewrite (shows_determines_cards _ _ Hshows).
    + destruct (no_notes_yet v); [|done]. by destruct Hnone as [Hnone _]; specialize (Hnone eq_refl).
  - destruct (NotesContent_lists_every_note empty_store eq_refl)
      as (v & Hlist & _ & _ & _ & _ & _ & _ & Hempty).
    by rewrite <-(Hempty eq_refl).
Defined.

(** C8. The note interface has three requests: create, remove and list.
    Each leaves relation [notes] as it was, appends one row under a newly
    generated identifier, or drops the rows of one key; none rewrites a row.
    So along every sequence of requests from a well-formed store, a row
    found at the end under the identifier of a row of the start is that
    row, with the same title, description and creation time. *)
Theorem notes_are_immutable (rs : list Request) (w : World) :
  well_formed w →
  (∀ r, step_shape (run rs w) (perform r (run rs w)))
  ∧ well_formed (run rs w)
  ∧ (∀ n n', n ∈ table w → n' ∈ table (run rs w) → id n' = id n → n' = n).
Proof.
  intros Hwf. destruct (run_invariant rs w Hwf) as (Hwf' & _ & Hrows).
  split_and!; [intros r; apply perform_shape|done|].
  intros n n' Hn Hn' Hid.
  destruct Hwf as [Hnd Hall]. rewrite Forall_forall in Hall.
  destruct (Hrows n' Hn') as [Hold|Hnew].
  - by apply (key_determines_row (table w)).
  - destruct Hnew. rewrite Hid. by apply Hall.
Qed.

Lemma notes_are_immutable_witness :
  well_formed (sample [])
  ∧ call_back ∈ table (run [Create form_AB; Listing; Remove "1"] (sample []))
  ∧ (∀ n', n' ∈ table (run [Create form_AB; Listing; Remove "1"] (sample [])) →
           id n' = id call_back → n' = call_back).
Proof.
  assert (well_formed (sample [])) as Hwf
    by (apply (bool_decide_unpack _); by vm_compute).
  split; [done|]. split.
  - apply (bool_decide_unpack _). by vm_compute.
  - intros n' Hn' Hid.
    destruct (notes_are_immutable [Create form_AB; Listing; Remove "1"]
                (sample []) Hwf) as (_ & _ & Hsame).
    apply Hsame; [|done..].
    apply (bool_decide_unpack _). by vm_compute.
Defined.

(** C9. A title that is not empty and holds only whitespace passes the
    guard: the action sends its insert to the store whatever the store then
    does with it, and when the store serves the request the title is stored
    as it was typed and the notes path is invalidated. *)
Theorem whitespace_title_is_inserted (formData : FormData) (w : World) (T : string) :
  get formData "title" = Some T → T ≠ "" → whitespace_only T = true →
  truthy (get formData "title") = true
  ∧ upcoming (addNote formData w).2 = drop 1 (upcoming w)
  ∧ (Postgrest.current w = Serve →
     addNote formData w
     = (Resolved tt,
        invalidated
          (inserted (new_note w (Some T) (get formData "description")) (consumed w)))
     ∧ table (addNote formData w).2
       = table w ++ [new_note w (Some T) (get formData "description")]
     ∧ cache (addNote formData w).2 !! "/notes" = None).
Proof.
  intros HT Hne _. rewrite addNote_eq, HT, truthy_Some by done.
  split_and!; [done| |].
  - by destruct (Postgrest.current w).
  - intros ->. split_and!; [done..|]. apply lookup_delete_eq.
Qed.

Lemma whitespace_title_is_inserted_witness :
  (get form_blank "title" = Some " " ∧ " " ≠ "" ∧ whitespace_only " " = true)
  ∧ truthy (get form_blank "title") = true
  ∧ table (addNote form_blank empty_store).2
    = [mkNote "1" (Some " ") (Some "B") 1700000720000]
  ∧ cache (addNote form_blank empty_store).2 !! "/notes" = None.
Proof.
  split; [by split_and!|].
  destruct (whitespace_title_is_inserted form_blank empty_store " ")
    as (Htruthy & _ & Hserved); [done..|].
  destruct (Hserved eq_refl) as (_ & Htable & Hcache).
  split_and!; [done| |done]. by rewrite Htable.
Defined.

(** C10. When the store answers the insert or the delete with an error
    result, the action drops the answer, invalidates the notes path and
    returns normally; relation [notes] is as it was. *)
Theorem store_error_result_is_discarded (w : World) (e : Failure) :
  Postgrest.current w = Refuse e →
  (∀ formData, truthy (get formData "title") = true →
     addNote formData w = (Resolved tt, invalidated (consumed w)))
  ∧ (∀ i, deleteNote i w = (Resolved tt, invalidated (consumed w)))
  ∧ cache (invalidated (consumed w)) !! "/notes" = None
  ∧ table (invalidated (consumed w)) = table w.
Proof.
  intros Hrefuse. split_and!; [| |apply lookup_delete_eq|done].
  - intros formData HT. by rewrite addNote_eq, HT, Hrefuse.
  - intros i. by rewrite deleteNote_eq, Hrefuse.
Qed.

Lemma store_error_result_is_discarded_witness :
  Postgrest.current (sample [Refuse AuthorizationFailure]) = Refuse AuthorizationFailure
  ∧ addNote form_AB (sample [Refuse AuthorizationFailure])
    = (Resolved tt, invalidated (consumed (sample [Refuse AuthorizationFailure])))
  ∧ deleteNote "2" (sample [Refuse AuthorizationFailure])
    = (Resolved tt, invalidated (consumed (sample [Refuse AuthorizationFailure])))
  ∧ cache (invalidated (consumed (sample [Refuse AuthorizationFailure]))) !! "/notes"
    = None.
Proof.
  split; [done|].
  destruct (store_error_result_is_discarded
              (sample [Refuse AuthorizationFailure]) AuthorizationFailure eq_refl)
    as (Hadd & Hdel & Hcache & _).
  split_and!; [by apply Hadd|apply Hdel|done].
Defined.

(** * Further properties of the note actions *)

Lemma without_app (i : string) (t u : list Note) :
  without i (t ++ u) = without i t ++ without i u.
Proof. unfold without. apply List.filter_app. Qed.

Lemma without_idemp (i : string) (t : list Note) :
  without i (without i t) = without i t.
Proof.
  induction t as [|n t IH]; [done|]; simpl.
  destruct (bool_decide (id n = i)) eqn:Hn; simpl; [done|].
  by rewrite Hn, IH.
Qed.

Lemma without_comm (i j : string) (t : list Note) :
  without i (without j t) = without j (without i t).
Proof.
  induction t as [|n t IH]; [done|]; simpl.
  destruct (bool_decide (id n = j)) eqn:Hj, (bool_decide (id n = i)) eqn:Hi;
    simpl; rewrite ?Hj, ?Hi; simpl; by rewrite ?IH.
Qed.

Lemma sublist_without (i : string) (t : list Note) : sublist (without i t) t.
Proof.
  induction t as [|n t IH]; [done|]; simpl.
  destruct (bool_decide (id n = i)); simpl; by constructor.
Qed.

Lemma DeleteNoteButton_onClick_eq (noteId : string) (w : World) :
  DeleteNoteButton_onClick noteId w = deleteNote noteId w.
Proof.
  unfold DeleteNoteButton_onClick, mbind, Action_bind, mret, Action_ret.
  by destruct (deleteNote noteId w) as [[[]|e] w'].
Qed.

(** X1. [addNote] reads the form only through its first [title] field and
    its first [description] field: two forms that agree on these give the
    same result, so that no other field of the form, such as an [id] or a
    [created_at], can reach the stored row. *)
Theorem addNote_reads_two_fields (formData formData' : FormData) (w : World) :
  get formData "title" = get formData' "title" →
  get formData "description" = get formData' "description" →
  addNote formData w = addNote formData' w.
Proof. intros HT HD. by rewrite !addNote_eq, HT, HD. Qed.

Lemma addNote_reads_two_fields_witness :
  (get (("id", "1") :: form_AB ++ [("title", "Z"); ("created_at", "0")]) "title"
   = get form_AB "title"
   ∧ get (("id", "1") :: form_AB ++ [("title", "Z"); ("created_at", "0")]) "description"
     = get form_AB "description")
  ∧ addNote (("id", "1") :: form_AB ++ [("title", "Z"); ("created_at", "0")]) (sample [])
    = addNote form_AB (sample []).
Proof.
  split; [done|].
  by apply (addNote_reads_two_fields
              (("id", "1") :: form_AB ++ [("title", "Z"); ("created_at", "0")])
              form_AB (sample [])).
Defined.

Lemma addNote_appends_titled_rows (formData : FormData) (w : World) :
  ∃ added,
    table (addNote formData w).2 = table w ++ added
    ∧ length added ≤ 1
    ∧ Forall (λ n, truthy (title n) = true) added.
Proof.
  rewrite addNote_eq. destruct (truthy (get formData "title")) eqn:HT.
  - destruct (Postgrest.current w); simpl.
    + exists [new_note w (get formData "title") (get formData "description")].
      split_and!; [done|simpl; lia|]. by apply Forall_singleton.
    + exists []. rewrite app_nil_r. split_and!; [done|simpl; lia|constructor].
    + exists []. rewrite app_nil_r. split_and!; [done|simpl; lia|constructor].
  - exists []. rewrite app_nil_r. split_and!; [done|simpl; lia|constructor].
Qed.

(** X2. Whatever the form holds and whatever the store does, [addNote]
    removes no row and rewrites none: the rows of before are a prefix of
    the rows of after, at most one row is added, and a row that is added
    has a non-empty title. *)
Theorem addNote_only_appends (formData : FormData) (w : World) :
  ∃ added,
    table (addNote formData w).2 = table w ++ added
    ∧ length added ≤ 1
    ∧ Forall (λ n, truthy (title n) = true) added.
Proof. apply addNote_appends_titled_rows. Qed.

(** X3. Non-empty titles are an invariant of the note interface: when every
    row has a non-empty title, every row still has one after any sequence
    of create, remove and list requests, whatever the forms hold and
    whatever the store does. *)
Theorem titles_stay_nonempty (rs : list Request) (w : World) :
  Forall (λ n, truthy (title n) = true) (table w) →
  Forall (λ n, truthy (title n) = true) (table (run rs w)).
Proof.
  intros Hw. induction rs as [|r rs IH] using rev_ind; [done|].
  rewrite run_snoc. destruct r as [formData|i|]; simpl.
  - destruct (addNote_appends_titled_rows formData (run rs w))
      as (added & -> & _ & Hadded).
    by apply Forall_app.
  - rewrite deleteNote_eq. destruct (Postgrest.current (run rs w)); simpl; [|done..].
    apply Forall_forall. intros n [Hn _]%elem_of_without.
    rewrite Forall_forall in IH. by apply IH.
  - rewrite visit_notes_eq. destruct (cache (run rs w) !! "/notes"); [done|].
    by destruct (Postgrest.current (run rs w)).
Qed.

Lemma titles_stay_nonempty_witness :
  Forall (λ n, truthy (title n) = true) (table (sample [Refuse NetworkFailure]))
  ∧ Forall (λ n, truthy (title n) = true)
      (table (run [Create form_empty_title; Create form_blank; Remove "1"; Listing]
                (sample [Refuse NetworkFailure]))).
Proof.
  assert (Forall (λ n, truthy (title n) = true)
            (table (sample [Refuse NetworkFailure]))) as Hw
    by (by repeat constructor).
  split; [done|].
  by apply (titles_stay_nonempty
              [Create form_empty_title; Create form_blank; Remove "1"; Listing]
              (sample [Refuse NetworkFailure])).
Defined.

(** X4. [deleteNote] adds no row and rewrites none, in any store state, also
    one where an identifier occurs twice: the rows of after are a sublist of
    the rows of before, and when the store serves the request they are
    exactly the rows whose [id] differs from the argument. *)
Theorem deleteNote_only_removes (i : string) (w : World) :
  sublist (table (deleteNote i w).2) (table w)
  ∧ (Postgrest.current w = Serve →
     ∀ n, n ∈ table (deleteNote i w).2 ↔ n ∈ table w ∧ id n ≠ i).
Proof.
  rewrite deleteNote_eq. split.
  - destruct (Postgrest.current w); simpl; [apply sublist_without|done..].
  - intros -> n. simpl. apply elem_of_without.
Qed.

Lemma deleteNote_only_removes_witness :
  Postgrest.current (sample []) = Serve
  ∧ sublist (table (deleteNote "2" (sample [])).2) (table (sample []))
  ∧ (groceries ∈ table (deleteNote "2" (sample [])).2)
  ∧ (call_back ∉ table (deleteNote "2" (sample [])).2).
Proof.
  split; [done|].
  destruct (deleteNote_only_removes "2" (sample [])) as [Hsub Hrows].
  specialize (Hrows eq_refl).
  split_and!; [done| |].
  - apply Hrows. split; [|done].
    apply (bool_decide_unpack _). by vm_compute.
  - intros [_ Hid]%Hrows. by apply Hid.
Defined.

(** X5. Served deletions compose: deleting the same identifier a second
    time changes no row, and two deletions leave the same rows in either
    order. *)
Theorem deleteNote_twice_and_swapped (i j : string) (w : World) :
  Postgrest.current w = Serve →
  Postgrest.current (consumed w) = Serve →
  table (deleteNote i (deleteNote i w).2).2 = table (deleteNote i w).2
  ∧ table (deleteNote j (deleteNote i w).2).2
    = table (deleteNote i (deleteNote j w).2).2.
Proof.
  intros Hfirst Hsecond.
  rewrite !(deleteNote_eq w), Hfirst. simpl.
  rewrite !deleteNote_eq.
  change (Postgrest.current (invalidated (removed i (consumed w))))
    with (Postgrest.current (consumed w)).
  change (Postgrest.current (invalidated (removed j (consumed w))))
    with (Postgrest.current (consumed w)).
  rewrite Hsecond. simpl. split; [apply without_idemp|apply without_comm].
Qed.

Lemma deleteNote_twice_and_swapped_witness :
  (Postgrest.current (sample []) = Serve
   ∧ Postgrest.current (consumed (sample [])) = Serve)
  ∧ table (deleteNote "1" (deleteNote "1" (sample [])).2).2
    = table (deleteNote "1" (sample [])).2
  ∧ table (deleteNote "2" (deleteNote "1" (sample [])).2).2
    = table (deleteNote "1" (deleteNote "2" (sample [])).2).2.
Proof.
  split; [done|].
  by apply (deleteNote_twice_and_swapped "1" "2" (sample [])).
Defined.

(** X6. Creating a note and then deleting it by the identifier the store
    gave it brings relation [notes] back to the rows of before, when the
    store is well-formed and serves both requests; the identifier is used
    up all the same. *)
Theorem create_then_delete_restores (formData : FormData) (w : World) :
  well_formed w →
  truthy (get formData "title") = true →
  Postgrest.current w = Serve →
  Postgrest.current (consumed w) = Serve →
  table (deleteNote (Postgrest.generated_id (next_id w)) (addNote formData w).2).2
  = table w
  ∧ next_id (deleteNote (Postgrest.generated_id (next_id w)) (addNote formData w).2).2
    = S (next_id w).
Proof.
  intros [_ Hall] HT Hfirst Hsecond.
  rewrite addNote_eq, HT, Hfirst. simpl. rewrite deleteNote_eq.
  change (Postgrest.current (invalidated (inserted ?n (consumed w))))
    with (Postgrest.current (consumed w)).
  rewrite Hsecond. simpl. split; [|done].
  rewrite without_app, without_absent.
  - simpl. rewrite bool_decide_true by done. simpl. apply app_nil_r.
  - intros (m & Hid & Hm)%list_elem_of_fmap.
    rewrite Forall_forall in Hall. apply Hall in Hm. rewrite <-Hid in Hm.
    by apply generated_id_fresh in Hm.
Qed.

Lemma create_then_delete_restores_witness :
  (well_formed (sample [])
   ∧ truthy (get form_AB "title") = true
   ∧ Postgrest.current (sample []) = Serve
   ∧ Postgrest.current (consumed (sample [])) = Serve)
  ∧ table (deleteNote (Postgrest.generated_id (next_id (sample [])))
             (addNote form_AB (sample [])).2).2
    = table (sample [])
  ∧ next_id (deleteNote (Postgrest.generated_id (next_id (sample [])))
               (addNote form_AB (sample [])).2).2
    = S (next_id (sample [])).
Proof.
  assert (well_formed (sample [])) as Hwf
    by (apply (bool_decide_unpack _); by vm_compute).
  split; [by split_and!|].
  by apply (create_then_delete_restores form_AB (sample [])).
Defined.

(** X7. Listing, clicking the delete button of one of the cards shown, and
    listing again: when identifiers are distinct and the store serves the
    three requests, the second listing shows the cards of the first without
    the card clicked, the others in the same order. *)
Theorem click_delete_removes_the_card (w : World) (c : NoteCard) (v : View) (w1 : World) :
  NoDup (id <$> table w) →
  Postgrest.current w = Serve →
  Postgrest.current (consumed w) = Serve →
  Postgrest.current (consumed (consumed w)) = Serve →
  NotesContent w = (Resolved v, w1) →
  c ∈ cards v →
  ∃ before after w2 v' w3,
    cards v = before ++ c :: after
    ∧ DeleteNoteButton_onClick (noteId c) w1 = (Resolved tt, w2)
    ∧ NotesContent w2 = (Resolved v', w3)
    ∧ cards v' = before ++ after.
Proof.
  intros Hnd H1 H2 H3. rewrite NotesContent_eq, H1. intros [= <- <-].
  simpl. intros (n & -> & Hn)%list_elem_of_fmap.
  destruct (without_split (id n) (table w) Hnd) as
    (before & n' & after & Ht & Hid & Hw & _); [by apply list_elem_of_fmap_2|].
  assert (n' = n) as ->.
  { apply (key_determines_row (table w)); [done|done| |done].
    rewrite Ht. apply elem_of_app. right. by left. }
  exists (card_of <$> before), (card_of <$> after).
  rewrite DeleteNoteButton_onClick_eq, deleteNote_eq, H2. do 3 eexists.
  split_and!; [by rewrite Ht, fmap_app|reflexivity| |].
  - rewrite NotesContent_eq.
    change (Postgrest.current (invalidated (removed ?i (consumed (consumed w)))))
      with (Postgrest.current (consumed (consumed w))).
    rewrite H3. reflexivity.
  - simpl. by rewrite Hw, fmap_app.
Qed.

Lemma click_delete_removes_the_card_witness :
  (NoDup (id <$> table (sample []))
   ∧ Postgrest.current (sample []) = Serve
   ∧ Postgrest.current (consumed (sample [])) = Serve
   ∧ Postgrest.current (consumed (consumed (sample []))) = Serve
   ∧ NotesContent (sample [])
     = (Resolved (rendering [groceries; call_back]), consumed (sample []))
   ∧ card_of groceries ∈ cards (rendering [groceries; call_back]))
  ∧ ∃ before after w2 v' w3,
      cards (rendering [groceries; call_back]) = before ++ card_of groceries :: after
      ∧ DeleteNoteButton_onClick (noteId (card_of groceries)) (consumed (sample []))
        = (Resolved tt, w2)
      ∧ NotesContent w2 = (Resolved v', w3)
      ∧ cards v' = before ++ after.
Proof.
  assert (NoDup (id <$> table (sample []))) as Hnd
    by (apply (bool_decide_unpack _); by vm_compute).
  assert (card_of groceries ∈ cards (rendering [groceries; call_back])) as Hc
    by (simpl; by left).
  split; [by split_and!|].
  by apply (click_delete_removes_the_card (sample []) (card_of groceries)
              (rendering [groceries; call_back]) (consumed (sample []))).
Defined.

(** X8. Whatever the store answers, a view [NotesContent] returns shows the
    "No notes yet" paragraph exactly when it shows no card, always shows the
    creation form, wires each card's delete button to the note the card is
    keyed by, and has distinct keys when the rows have distinct
    identifiers; rendering changes neither the rows nor the cache. *)
Theorem NotesContent_view_is_coherent (w w' : World) (v : View) :
  NotesContent w = (Resolved v, w') →
  (no_notes_yet v = true ↔ cards v = [])
  ∧ add_note_form v = true
  ∧ Forall (λ c, noteId c = key c) (cards v)
  ∧ (NoDup (id <$> table w) → NoDup (key <$> cards v))
  ∧ table w' = table w
  ∧ cache w' = cache w.
Proof.
  rewrite NotesContent_eq.
  destruct (Postgrest.current w); intros [= <- <-]; simpl.
  - split_and!; [|done| | |done..].
    + rewrite bool_decide_eq_true. destruct (table w); naive_solver.
    + apply Forall_fmap, Forall_true. done.
    + by rewrite <-list_fmap_compose.
  - split_and!; [done..|constructor|by constructor|done|done].
Qed.

Lemma NotesContent_view_is_coherent_witness :
  NotesContent (sample []) = (Resolved (rendering [groceries; call_back]), consumed (sample []))
  ∧ (no_notes_yet (rendering [groceries; call_back]) = true
     ↔ cards (rendering [groceries; call_back]) = [])
  ∧ Forall (λ c, noteId c = key c) (cards (rendering [groceries; call_back])).
Proof.
  split; [done|].
  destruct (NotesContent_view_is_coherent (sample []) (consumed (sample []))
              (rendering [groceries; call_back]) eq_refl)
    as (Hnone & _ & Hwired & _).
  by split.
Defined.

(** X9. [NotesContent] reads [data] and drops [error]: when the store
    answers the select with an error result it returns normally with no
    card and the "No notes yet" paragraph, whatever rows the store holds. *)
Theorem NotesContent_hides_store_error (w : World) (e : Failure) :
  Postgrest.current w = Refuse e →
  NotesContent w = (Resolved (mkView [] true true), consumed w)
  ∧ table (consumed w) = table w.
Proof. intros Hrefuse. by rewrite NotesContent_eq, Hrefuse. Qed.

Lemma NotesContent_hides_store_error_witness :
  Postgrest.current (sample [Refuse AuthorizationFailure]) = Refuse AuthorizationFailure
  ∧ NotesContent (sample [Refuse AuthorizationFailure])
    = (Resolved (mkView [] true true), consumed (sample [Refuse AuthorizationFailure]))
  ∧ table (consumed (sample [Refuse AuthorizationFailure])) = [groceries; call_back].
Proof.
  split; [done|].
  by apply (NotesContent_hides_store_error
              (sample [Refuse AuthorizationFailure]) AuthorizationFailure).
Defined.

(** * The creation form *)

(** X10. The form's action awaits [addNote] and then resets the form, so
    the form is cleared although nothing was stored in two cases: the
    title is missing or empty, and the store answers the insert with an
    error result. *)
Theorem AddNoteForm_action_clears_without_storing
    (formData : FormData) (w : World) (f : FormElement) :
  (truthy (get formData "title") = false ∨ ∃ e, Postgrest.current w = Refuse e) →
  ∃ w',
    AddNoteForm_action formData (mkBrowser w (Some f))
    = (Resolved tt, mkBrowser w' (Some (mkFormElement "" "")))
    ∧ table w' = table w.
Proof.
  intros Hcase. unfold AddNoteForm_action. simpl. rewrite addNote_eq.
  destruct Hcase as [->|[e He]]; [by eexists|].
  destruct (truthy (get formData "title")); [|by eexists].
  rewrite He. by eexists.
Qed.

Lemma AddNoteForm_action_clears_without_storing_witness :
  (truthy (get form_AB "title") = false
   ∨ ∃ e, Postgrest.current (sample [Refuse ConstraintViolation]) = Refuse e)
  ∧ ∃ w',
      AddNoteForm_action form_AB
        (mkBrowser (sample [Refuse ConstraintViolation]) (Some (mkFormElement "A" "B")))
      = (Resolved tt, mkBrowser w' (Some (mkFormElement "" "")))
      ∧ table w' = table (sample [Refuse ConstraintViolation]).
Proof.
  assert (truthy (get form_AB "title") = false
          ∨ ∃ e, Postgrest.current (sample [Refuse ConstraintViolation]) = Refuse e)
    as Hcase by (right; by exists ConstraintViolation).
  split; [done|].
  by apply (AddNoteForm_action_clears_without_storing form_AB
              (sample [Refuse ConstraintViolation]) (mkFormElement "A" "B")).
Defined.

(** X11. When the store request of a creation with a non-empty title
    throws, the form's action rejects with that failure and a mounted form
    keeps its inputs. *)
Theorem AddNoteForm_action_keeps_text_on_throw
    (formData : FormData) (w : World) (f : FormElement) (e : Failure) :
  truthy (get formData "title") = true →
  Postgrest.current w = Crash e →
  AddNoteForm_action formData (mkBrowser w (Some f))
  = (Rejected e, mkBrowser (consumed w) (Some f)).
Proof.
  intros HT Hcrash. unfold AddNoteForm_action. simpl.
  by rewrite addNote_eq, HT, Hcrash.
Qed.

Lemma AddNoteForm_action_keeps_text_on_throw_witness :
  (truthy (get form_AB "title") = true
   ∧ Postgrest.current (sample [Crash NetworkFailure]) = Crash NetworkFailure)
  ∧ AddNoteForm_action form_AB
      (mkBrowser (sample [Crash NetworkFailure]) (Some (mkFormElement "A" "B")))
    = (Rejected NetworkFailure,
       mkBrowser (consumed (sample [Crash NetworkFailure])) (Some (mkFormElement "A" "B"))).
Proof.
  split; [done|].
  by apply (AddNoteForm_action_keeps_text_on_throw form_AB
              (sample [Crash NetworkFailure]) (mkFormElement "A" "B") NetworkFailure).
Defined.

(** * The profile page *)

Section strings.
Implicit Types (s name piece : string) (c : ascii).

Lemma split_nonempty c s : JsString.split c s ≠ [].
Proof.
  destruct s as [|d s]; simpl; [done|].
  case_decide; [done|]. by destruct (JsString.split c s).
Qed.

Lemma append_empty_r s : s +:+ "" = s.
Proof.
  induction s as [|d s IH]; [done|].
  change (String d (s +:+ "") = String d s). by rewrite IH.
Qed.

Lemma join_cons (x : option string) (xs : list (option string)) :
  JsString.join "" (x :: xs) = default "" x +:+ JsString.join "" xs.
Proof.
  destruct xs as [|y ys]; [|done].
  change (default "" x = default "" x +:+ ""). by rewrite append_empty_r.
Qed.

Lemma words_cons c s :
  words (String c s) =
  if decide (c = " "%char) then words s
  else match JsString.split " " s with
       | [] => []
       | piece :: pieces =>
           String c piece
           :: List.filter (λ piece, negb (bool_decide (piece = ""))) pieces
       end.
Proof.
  unfold words. simpl. case_decide; [done|].
  pose proof (split_nonempty " " s). by destruct (JsString.split " " s).
Qed.

Lemma words_nonempty name : Forall (λ piece, piece ≠ "") (words name).
Proof.
  apply Forall_forall. intros piece. unfold words.
  rewrite list_elem_of_In, List.filter_In, negb_true_iff, bool_decide_eq_false.
  by intros [_ ?].
Qed.

Lemma words_nil_iff name : words name = [] ↔ only_spaces name = true.
Proof.
  induction name as [|c s IH]; [done|].
  rewrite words_cons. simpl. rewrite andb_true_iff, bool_decide_eq_true, <-IH.
  case_decide as Hc.
  - split; [by intros ?|by intros [_ ?]].
  - pose proof (split_nonempty " " s).
    destruct (JsString.split " " s); [done|].
    split; [done|by intros [? _]].
Qed.

Lemma fmap_at0_cons piece (pieces : list string) :
  JsString.at0 <$> (piece :: pieces) = JsString.at0 piece :: (JsString.at0 <$> pieces).
Proof. done. Qed.

Lemma join_heads_of_pieces (pieces : list string) :
  JsString.join "" (JsString.at0 <$> pieces)
  = JsString.join ""
      (JsString.at0 <$> List.filter (λ piece, negb (bool_decide (piece = ""))) pieces).
Proof.
  induction pieces as [|piece pieces IH]; [done|].
  rewrite fmap_at0_cons, join_cons, IH.
  destruct piece as [|d piece]; [done|].
  change (List.filter _ (String d piece :: pieces))
    with (String d piece
          :: List.filter (λ piece, negb (bool_decide (piece = ""))) pieces).
  by rewrite fmap_at0_cons, join_cons.
Qed.

Lemma substring0_zero s : JsString.substring0 0 s = "".
Proof. by destruct s. Qed.

Lemma substring0_heads (ws : list string) :
  Forall (λ piece, piece ≠ "") ws →
  JsString.substring0 2 (JsString.join "" (JsString.at0 <$> ws))
  = JsString.join "" (JsString.at0 <$> take 2 ws).
Proof.
  intros Hws.
  destruct Hws as [|[|d1 p1] ws1 H1 Hws]; [done|done|].
  destruct Hws as [|[|d2 p2] ws2 H2 Hws]; [done|done|].
  change (take 2 (String d1 p1 :: String d2 p2 :: ws2))
    with [String d1 p1; String d2 p2].
  rewrite !fmap_at0_cons, !join_cons.
  change (String d1 (String d2
            (JsString.substring0 0 (JsString.join "" (JsString.at0 <$> ws2))))
          = String d1 (String d2 "")).
  by rewrite substring0_zero.
Qed.

Lemma toUpperCase_substring0 (k : nat) s :
  JsString.substring0 k (JsString.toUpperCase s)
  = JsString.toUpperCase (JsString.substring0 k s).
Proof.
  unfold JsString.substring0. revert s.
  induction k as [|k IH]; intros [|c s]; simpl; [done..|]. by rewrite IH.
Qed.

Lemma substring0_length (k : nat) s :
  String.length (JsString.substring0 k s) ≤ k.
Proof.
  unfold JsString.substring0. revert s.
  induction k as [|k IH]; intros [|c s]; simpl; [lia..|].
  specialize (IH s). lia.
Qed.

Lemma upper_not_lower c : is_lower (JsString.upper c) = false.
Proof. by destruct c as [[] [] [] [] [] [] [] []]. Qed.

Lemma toUpperCase_no_lower s :
  Forall (λ c, is_lower c = false) (chars (JsString.toUpperCase s)).
Proof.
  induction s as [|c s IH]; simpl; constructor; [apply upper_not_lower|done].
Qed.

Lemma split_snoc c s :
  JsString.split c (s +:+ String c "") = JsString.split c s ++ [""].
Proof.
  induction s as [|d s IH]; simpl.
  - by rewrite decide_True.
  - case_decide; [by rewrite IH|]. rewrite IH.
    pose proof (split_nonempty c s). by destruct (JsString.split c s).
Qed.

Lemma getInitials_words name :
  Profile.getInitials name
  = JsString.toUpperCase (JsString.join "" (JsString.at0 <$> take 2 (words name))).
Proof.
  unfold Profile.getInitials.
  rewrite toUpperCase_substring0, join_heads_of_pieces.
  fold (words name). by rewrite substring0_heads by apply words_nonempty.
Qed.

End strings.

Lemma words_leading_space (name : string) : words (" " +:+ name) = words name.
Proof.
  change (" " +:+ name) with (String " " name).
  by rewrite words_cons, decide_True.
Qed.

Lemma words_trailing_space (name : string) : words (name +:+ " ") = words name.
Proof.
  unfold words. rewrite split_snoc, List.filter_app. simpl. apply app_nil_r.
Qed.

Lemma or_else_nonempty (v : option string) (d : string) :
  d ≠ "" → Profile.or_else v d ≠ "".
Proof.
  intros Hd. unfold Profile.or_else, truthy.
  destruct v as [s|]; simpl; [|done].
  by destruct (decide (s = "")) as [->|Hs];
    [rewrite bool_decide_true|rewrite bool_decide_false].
Qed.

Lemma or_else_cases (v : option string) (d : string) :
  (truthy v = true ∧ v = Some (Profile.or_else v d))
  ∨ (truthy v = false ∧ Profile.or_else v d = d).
Proof.
  unfold Profile.or_else. destruct (truthy v) eqn:Hv; [left|by right].
  destruct v; [done|discriminate].
Qed.

(** X12. For a name of ASCII characters, the initials are the first
    characters of the first two non-empty pieces between the spaces of the
    name, in upper case; empty pieces, which come from leading, trailing
    and repeated spaces, contribute nothing. *)
Theorem getInitials_first_two_words (name : string) :
  ascii_only name = true →
  Profile.getInitials name
  = JsString.toUpperCase (JsString.join "" (JsString.at0 <$> take 2 (words name))).
Proof. intros _. apply getInitials_words. Qed.

Lemma getInitials_first_two_words_witness :
  ascii_only "  grace  brewster hopper" = true
  ∧ words "  grace  brewster hopper" = ["grace"; "brewster"; "hopper"]
  ∧ Profile.getInitials "  grace  brewster hopper" = "GB".
Proof.
  split; [done|]. split; [done|].
  by rewrite (getInitials_first_two_words "  grace  brewster hopper").
Defined.

(** X13. For a name of ASCII characters, the initials are empty exactly
    when the name holds nothing but spaces (the empty name included). *)
Theorem getInitials_empty_iff_only_spaces (name : string) :
  ascii_only name = true →
  Profile.getInitials name = "" ↔ only_spaces name = true.
Proof.
  intros _. rewrite getInitials_words, <-words_nil_iff.
  pose proof (words_nonempty name) as Hws.
  destruct (words name) as [|[|d piece] ws]; [done| |].
  - by apply Forall_cons in Hws as [[] _].
  - change (take 2 (String d piece :: ws)) with (String d piece :: take 1 ws).
    rewrite fmap_at0_cons, join_cons. done.
Qed.

Lemma getInitials_empty_iff_only_spaces_witness :
  ascii_only "   " = true
  ∧ only_spaces "   " = true
  ∧ Profile.getInitials "   " = "".
Proof.
  split; [done|]. split; [done|].
  by apply (getInitials_empty_iff_only_spaces "   ").
Defined.

(** X14. For a name of ASCII characters, the initials have at most two
    characters and none of them is a lower-case letter. *)
Theorem getInitials_short_and_upper (name : string) :
  ascii_only name = true →
  String.length (Profile.getInitials name) ≤ 2
  ∧ Forall (λ c, is_lower c = false) (chars (Profile.getInitials name)).
Proof.
  intros _. unfold Profile.getInitials. split; [apply substring0_length|].
  rewrite toUpperCase_substring0. apply toUpperCase_no_lower.
Qed.

Lemma getInitials_short_and_upper_witness :
  ascii_only "ada lovelace king" = true
  ∧ String.length (Profile.getInitials "ada lovelace king") ≤ 2
  ∧ Forall (λ c, is_lower c = false) (chars (Profile.getInitials "ada lovelace king")).
Proof.
  split; [done|]. by apply (getInitials_short_and_upper "ada lovelace king").
Defined.

(** X15. For a name of ASCII characters, a space put in front of the name
    or after it does not change the initials. *)
Theorem getInitials_ignores_outer_spaces (name : string) :
  ascii_only name = true →
  Profile.getInitials (" " +:+ name) = Profile.getInitials name
  ∧ Profile.getInitials (name +:+ " ") = Profile.getInitials name.
Proof.
  intros _.
  by rewrite !getInitials_words, words_leading_space, words_trailing_space.
Qed.

Lemma getInitials_ignores_outer_spaces_witness :
  ascii_only "alan turing" = true
  ∧ Profile.getInitials (" " +:+ "alan turing") = Profile.getInitials "alan turing"
  ∧ Profile.getInitials ("alan turing" +:+ " ") = Profile.getInitials "alan turing".
Proof.
  split; [done|]. by apply (getInitials_ignores_outer_spaces "alan turing").
Defined.

(** X16. [ProfileContent] redirects to [/auth/login] exactly when the
    identity provider reported an error or returned no user, also when an
    error comes together with a user; when it renders, it renders the user
    returned, under that user's identifier. *)
Theorem ProfileContent_redirects_without_user (r : Profile.UserResponse) :
  (Profile.ProfileContent r = Profile.Redirect "/auth/login"
   ↔ is_Some (Profile.error r) ∨ Profile.user r = None)
  ∧ (∀ v, Profile.ProfileContent r = Profile.Render v →
          Profile.error r = None
          ∧ ∃ u, Profile.user r = Some u ∧ Profile.uid_input v = Profile.id u)
  ∧ (∀ path, Profile.ProfileContent r = Profile.Redirect path → path = "/auth/login").
Proof.
  destruct r as [[u|] [e|]]; simpl; split_and!.
  - split; [intros _; left; by eexists|done].
  - intros v [=].
  - by intros path [= <-].
  - split; [intros [=]|intros [[? [=]]|[=]]].
  - intros v [= <-]. split; [done|]. by exists u.
  - intros path [=].
  - split; [intros _; left; by eexists|done].
  - intros v [=].
  - by intros path [= <-].
  - split; [intros _; by right|done].
  - intros v [=].
  - by intros path [= <-].
Qed.

Lemma ProfileContent_redirects_without_user_witness :
  is_Some (Profile.error (Profile.mkUserResponse (Some ada) (Some NetworkFailure)))
  ∧ Profile.ProfileContent (Profile.mkUserResponse (Some ada) (Some NetworkFailure))
    = Profile.Redirect "/auth/login".
Proof.
  assert (is_Some (Profile.error
            (Profile.mkUserResponse (Some ada) (Some NetworkFailure)))) as Herr
    by (by eexists).
  split; [done|].
  apply (ProfileContent_redirects_without_user
           (Profile.mkUserResponse (Some ada) (Some NetworkFailure))).
  by left.
Defined.

(** X17. For every user the provider returns without error, the page
    renders a name that is never empty: it is the user's [full_name], or
    the [user_name], or "User", and a name that is missing or empty is
    never the one chosen.  The same name is the card title, the name field
    and the avatar's alternative text, and the avatar fallback is its
    initials. *)
Theorem ProfileContent_name_is_never_empty (u : Profile.User) :
  ∃ v,
    Profile.ProfileContent (Profile.mkUserResponse (Some u) None) = Profile.Render v
    ∧ Profile.profile_title v ≠ ""
    ∧ (Profile.user_metadata u ≫= Profile.full_name = Some (Profile.profile_title v)
       ∨ (truthy (Profile.user_metadata u ≫= Profile.full_name) = false
          ∧ Profile.user_metadata u ≫= Profile.user_name
            = Some (Profile.profile_title v))
       ∨ (truthy (Profile.user_metadata u ≫= Profile.full_name) = false
          ∧ truthy (Profile.user_metadata u ≫= Profile.user_name) = false
          ∧ Profile.profile_title v = "User"))
    ∧ Profile.name_input v = Profile.profile_title v
    ∧ Profile.avatar_alt v = Profile.profile_title v
    ∧ Profile.avatar_fallback v = Profile.getInitials (Profile.profile_title v).
Proof.
  eexists. split; [reflexivity|]. simpl. split_and!; [|  |done..].
  - by apply or_else_nonempty, or_else_nonempty.
  - destruct (or_else_cases (Profile.user_metadata u ≫= Profile.full_name)
                (Profile.or_else (Profile.user_metadata u ≫= Profile.user_name) "User"))
      as [[_ Hfull]|[Hfull Heq]]; [by left|right].
    rewrite Heq.
    destruct (or_else_cases (Profile.user_metadata u ≫= Profile.user_name) "User")
      as [[_ Huser]|[Huser Heq']]; [by left|right; by rewrite Heq'].
Qed.

(** X18. The Username field and the "@" line go together: when the user's
    [preferred_username] is present and not empty, the card's second line
    is "@" followed by it and the Username field shows it; otherwise there
    is no Username field and the second line is the e-mail shown in the
    Email field (empty when the user has none). *)
Theorem ProfileContent_username_and_handle (u : Profile.User) :
  ∃ v,
    Profile.ProfileContent (Profile.mkUserResponse (Some u) None) = Profile.Render v
    ∧ match Profile.username_input v with
      | Some handle =>
          handle ≠ ""
          ∧ Profile.user_metadata u ≫= Profile.preferred_username = Some handle
          ∧ Profile.profile_description v = "@" +:+ handle
      | None =>
          truthy (Profile.user_metadata u ≫= Profile.preferred_username) = false
          ∧ Profile.profile_description v = Profile.email_input v
      end
    ∧ (Profile.email_input v = "" ∨ Profile.email u = Some (Profile.email_input v)).
Proof.
  eexists. split; [reflexivity|].
  cbn [Profile.username_input Profile.profile_description Profile.email_input
       Profile.user Profile.error].
  split.
  - destruct (or_else_cases (Profile.user_metadata u ≫= Profile.preferred_username) "")
      as [[Ht Hv]|[Ht Heq]].
    + assert (Profile.or_else (Profile.user_metadata u ≫= Profile.preferred_username) ""
              ≠ "") as Hne.
      { intros Hempty. rewrite Hempty in Hv. by rewrite Hv in Ht. }
      rewrite truthy_Some by done. by split_and!.
    + rewrite Heq. by split.
  - destruct (or_else_cases (Profile.email u) "") as [[_ ?]|[_ Heq]];
      [by right|by left].
Qed.

(** X19. A user whose [full_name] and [user_name] are both missing or
    empty, in particular a user without metadata, is shown as "User" with
    the avatar fallback "U". *)
Theorem ProfileContent_defaults_to_User (u : Profile.User) :
  truthy (Profile.user_metadata u ≫= Profile.full_name) = false →
  truthy (Profile.user_metadata u ≫= Profile.user_name) = false →
  ∃ v,
    Profile.ProfileContent (Profile.mkUserResponse (Some u) None) = Profile.Render v
    ∧ Profile.profile_title v = "User"
    ∧ Profile.avatar_fallback v = "U"
    ∧ Profile.uid_input v = Profile.id u.
Proof.
  intros Hfull Huser. eexists. split; [reflexivity|]. simpl.
  unfold Profile.or_else. by rewrite Hfull, Huser.
Qed.

Lemma ProfileContent_defaults_to_User_witness :
  (truthy (Profile.user_metadata bare_user ≫= Profile.full_name) = false
   ∧ truthy (Profile.user_metadata bare_user ≫= Profile.user_name) = false)
  ∧ ∃ v,
      Profile.ProfileContent (Profile.mkUserResponse (Some bare_user) None)
      = Profile.Render v
      ∧ Profile.profile_title v = "User"
      ∧ Profile.avatar_fallback v = "U"
      ∧ Profile.uid_input v = Profile.id bare_user.
Proof.
  split; [done|].
  by apply (ProfileContent_defaults_to_User bare_user).
Defined.
